(** * GeoRanker: distance, nearest store and nearby restaurants

    A shallow embedding of the geographic helpers of
    [06-navigator-geolocation.js]:

    - [calculateDistance]      (section 7 of the script, Haversine formula),
    - [findNearestStore]       (section 8, nearest of a list of stores),
    - [findNearbyRestaurants]  (use case 4, radius filter and rating order),
    - [detectDeviceType], [detectBrowser]  (sections 2 and 3, tests on the
      user agent string, which is a parameter here).

    Modelling choices, all of them visible in the definitions below.

    - A JavaScript Number is a real number ([R] of the Standard Library):
      rounding, overflow and signed zeros are not modelled.  This is an
      idealisation with a visible limit.  In binary64 the haversine term
      of [calculateDistance] can round to just above 1 for nearly
      antipodal points; [Math.sqrt(1 - a)] is then NaN and so is the
      distance.  The theorems below are those that do not depend on the
      difference: identities of the formula (exact here, up to rounding
      in the script), and properties of the filter and of the rating
      order, which read the distance only through
      [r.distance <= radius].  The order of [findNearestStore] by
      distance is proved for exact arithmetic only
      ([findNearestStore_of_exact_arithmetic]); a NaN distance upsets it
      in the script.
    - The NaN that comes from the difference of two ratings one of which
      is [undefined] is modelled explicitly ([JS.Number], [JS.ToNumber],
      [JS.Number_subtract]).
    - [Array.prototype.sort] is a stable sort.  It is modelled by a stable
      insertion sort driven by [SortCompare], which turns a NaN returned by
      the comparison function into [+0] as ECMAScript prescribes.  For a
      consistent comparison function every stable sort returns the same
      array; ECMAScript leaves the order to the engine otherwise.  The
      theorems on the order of a result assume ratings on all candidates,
      which makes the comparison function consistent; the others use
      only that sorting permutes.
    - An abrupt completion is a thrown error identified by its [name]
      ([JS.Throw "TypeError"]); an [async] function is modelled by the
      completion that settles its promise.
    - [console.log] output is not modelled; the property reads made while
      building the logged text are, since they can throw.
    - The two functions build their candidate list as a local constant;
      their only arguments are the origin and, for the restaurants, the
      radius.  The body is embedded with that list as a parameter
      ([findNearestStore_of], [findNearbyRestaurants_of]) and the functions
      of the script are the instances at the literal lists.  An empty
      list of stores and a restaurant without rating are no inputs of
      the script. *)

From Stdlib Require Import Reals Lra List String Bool.
From Stdlib Require Import Sorting.Permutation Sorting.Sorted.
From Stdlib Require Import Ascii PeanoNat.
Import ListNotations.

Open Scope R_scope.

(** ** Host language semantics used by the script *)

Module JS.

(** The result of evaluating a numeric expression: a real, or NaN. *)
Inductive Number : Type :=
| Num (r : R)
| NaN.

(** [ToNumber] of a property that holds a number or is absent
    ([undefined]): [ToNumber(undefined)] is NaN. *)
Definition ToNumber (v : option R) : Number :=
  match v with
  | Some r => Num r
  | None => NaN
  end.

(** The binary [-] operator: NaN as soon as one operand is NaN. *)
Definition Number_subtract (x y : Number) : Number :=
  match x, y with
  | Num a, Num b => Num (a - b)
  | _, _ => NaN
  end.

(** Completion records: normal completion with a value, or a throw
    completion carrying the [name] of the error object. *)
Inductive Completion (A : Type) : Type :=
| Normal (v : A)
| Throw (errorName : string).

Arguments Normal {A} v.
Arguments Throw {A} errorName.

(** [Math.atan2(y, x)] on reals: the angle of the point [(x, y)], in
    [(-PI, PI]], and [0] at the origin. *)
Definition Math_atan2 (y x : R) : R :=
  if Rlt_dec 0 x then atan (y / x)
  else if Rlt_dec x 0 then
         if Rle_dec 0 y then atan (y / x) + PI else atan (y / x) - PI
  else if Rlt_dec 0 y then PI / 2
  else if Rlt_dec y 0 then - PI / 2
  else 0.

(** [x <= y] as a boolean. *)
Definition Rleb (x y : R) : bool :=
  if Rle_dec x y then true else false.

Section ArraySort.

Variable A : Type.
Variable comparefn : A -> A -> Number.

  (** [SortCompare(x, y)] for defined elements: call the comparison
      function; a NaN result counts as [+0]. *)
Definition SortCompare (x y : A) : R :=
    match comparefn x y with
    | Num v => v
    | NaN => 0
    end.

  (** Insert [x], which stood before every element of [l] in the array,
      into the sorted [l]: [x] stays ahead of the first element it does
      not compare greater than, hence ahead of its ties. *)
Fixpoint insert (x : A) (l : list A) : list A :=
    match l with
    | [] => [x]
    | y :: l' => if Rleb (SortCompare x y) 0 then x :: y :: l'
                 else y :: insert x l'
    end.

  (** [Array.prototype.sort(comparefn)], as the sorted list. *)
Fixpoint sort (l : list A) : list A :=
    match l with
    | [] => []
    | x :: l' => insert x (sort l')
    end.

End ArraySort.

Arguments SortCompare {A} comparefn x y.
Arguments insert {A} comparefn x l.
Arguments sort {A} comparefn l.

End JS.

Import JS.

(** ** The script *)

(** [calculateDistance(lat1, lon1, lat2, lon2)], lines 221-236.  The
    local constant [R] of the source shadows the type of reals inside
    the body, as it is written there. *)
Definition calculateDistance (lat1 lon1 lat2 lon2 : R) : R :=
  let R := 6371 in
  let dLat := (lat2 - lat1) * PI / 180 in
  let dLon := (lon2 - lon1) * PI / 180 in
  let a :=
    sin (dLat / 2) * sin (dLat / 2) +
    cos (lat1 * PI / 180) * cos (lat2 * PI / 180) *
    sin (dLon / 2) * sin (dLon / 2) in
  let c := 2 * Math_atan2 (sqrt a) (sqrt (1 - a)) in
  let distance := R * c in
  distance.

(** The haversine term [a] of [calculateDistance], named for the lemmas
    about it. *)
Definition haversine_a (lat1 lon1 lat2 lon2 : R) : R :=
  sin ((lat2 - lat1) * PI / 180 / 2) * sin ((lat2 - lat1) * PI / 180 / 2) +
  cos (lat1 * PI / 180) * cos (lat2 * PI / 180) *
  sin ((lon2 - lon1) * PI / 180 / 2) * sin ((lon2 - lon1) * PI / 180 / 2).

(** The object literals of the script: [{ name, lat, lon }] for a store,
    [{ name, lat, lon, rating }] for a restaurant.  An absent [rating]
    property reads as [undefined]: [None]. *)
Record Place : Type := mkPlace {
  name : string;
  lat : R;
  lon : R;
  rating : option R
}.

(** [{ ...place, distance: d }]. *)
Record Ranked : Type := mkRanked {
  place : Place;
  distance : R
}.

(** [store => ({ ...store, distance: calculateDistance(userLat, userLon,
    store.lat, store.lon) })], the callback of both [map] calls. *)
Definition withDistance (userLat userLon : R) (p : Place) : Ranked :=
  mkRanked p (calculateDistance userLat userLon (lat p) (lon p)).

(** [(a, b) => a.distance - b.distance] *)
Definition byDistance (a b : Ranked) : Number :=
  Number_subtract (Num (distance a)) (Num (distance b)).

(** [(a, b) => b.rating - a.rating] *)
Definition byRatingDesc (a b : Ranked) : Number :=
  Number_subtract (ToNumber (rating (place b))) (ToNumber (rating (place a))).

(** The [stores] constant of [findNearestStore], lines 250-254. *)
Definition stores : list Place :=
  [ mkPlace "Store A" 19.0760 72.8777 None;
    mkPlace "Store B" 19.1136 72.8697 None;
    mkPlace "Store C" 18.9388 72.8354 None ].

(** Body of [findNearestStore], lines 256-266, over a list of stores.
    [sorted[0]] of an empty array is [undefined], and reading
    [nearest.name] for the first [console.log] then throws a TypeError;
    otherwise [nearest] is returned. *)
Definition findNearestStore_of (stores : list Place) (userLat userLon : R)
  : Completion Ranked :=
  let storesWithDistance := map (withDistance userLat userLon) stores in
  let nearest := hd_error (sort byDistance storesWithDistance) in
  match nearest with
  | None => Throw "TypeError"
  | Some nearest => Normal nearest
  end.

(** [findNearestStore(userLat, userLon)] *)
Definition findNearestStore (userLat userLon : R) : Completion Ranked :=
  findNearestStore_of stores userLat userLon.

(** The [restaurants] constant of [findNearbyRestaurants], lines 377-381. *)
Definition restaurants : list Place :=
  [ mkPlace "Restaurant A" 19.0760 72.8777 (Some 4.5);
    mkPlace "Restaurant B" 19.1136 72.8697 (Some 4.2);
    mkPlace "Restaurant C" 18.9388 72.8354 (Some 4.8) ].

(** The candidates kept by [.filter(r => r.distance <= radius)], in
    input order. *)
Definition inRadius (restaurants : list Place) (userLat userLon radius : R)
  : list Ranked :=
  filter (fun r => Rleb (distance r) radius)
         (map (withDistance userLat userLon) restaurants).

(** Body of [findNearbyRestaurants], lines 373-397, over a list of
    restaurants.  [radius] is [None] when the argument is omitted (or
    [undefined]); the default parameter value is then [5].  Nothing in
    the body throws: the promise is always fulfilled with [nearby]. *)
Definition findNearbyRestaurants_of (restaurants : list Place)
  (userLat userLon : R) (radius : option R) : Completion (list Ranked) :=
  let radius := match radius with Some r => r | None => 5 end in
  let nearby :=
    sort byRatingDesc
      (filter (fun r => Rleb (distance r) radius)
         (map (fun r => mkRanked r
                 (calculateDistance userLat userLon (lat r) (lon r)))
              restaurants)) in
  Normal nearby.

(** [findNearbyRestaurants(userLat, userLon, radius = 5)] *)
Definition findNearbyRestaurants (userLat userLon : R) (radius : option R)
  : Completion (list Ranked) :=
  findNearbyRestaurants_of restaurants userLat userLon radius.

(** ** The specification's formula *)

(** A location of the specification's data model. *)
Record GeoPoint : Type := mkGeoPoint {
  latitude : R;
  longitude : R
}.

(** Degrees to radians. *)
Definition radians (deg : R) : R := deg * PI / 180.

(** The Haversine distance as the specification writes it, with Earth
    radius 6371 km. *)
Definition haversine_spec (a b : GeoPoint) : R :=
  let dLat := radians (latitude b - latitude a) in
  let dLon := radians (longitude b - longitude a) in
  let h := (sin (dLat / 2))² +
           cos (radians (latitude a)) * cos (radians (latitude b)) *
           (sin (dLon / 2))² in
  2 * 6371 * Math_atan2 (sqrt h) (sqrt (1 - h)).

(** [distance(a, b)] of the specification, as the script calls its
    function: [calculateDistance(a.lat, a.lon, b.lat, b.lon)]. *)
Definition GeoRanker_distance (a b : GeoPoint) : R :=
  calculateDistance (latitude a) (longitude a) (latitude b) (longitude b).

(** ** Device and browser detection *)

(** [s.includes(searchString)]: [searchString] occurs in [s] at some
    position.  A string is its sequence of code units; the user agent
    strings handled here are ASCII. *)
Fixpoint includes (searchString s : string) : bool :=
  (prefix searchString s ||
   match s with
   | EmptyString => false
   | String _ s' => includes searchString s'
   end)%bool.

(** Lower case of one code unit: [A]-[Z] move to [a]-[z]. *)
Definition toLowerCase_unit (c : ascii) : ascii :=
  let n := nat_of_ascii c in
  if ((65 <=? n) && (n <=? 90))%nat%bool then ascii_of_nat (n + 32) else c.

(** [s.toLowerCase()] *)
Fixpoint toLowerCase (s : string) : string :=
  match s with
  | EmptyString => EmptyString
  | String c s' => String (toLowerCase_unit c) (toLowerCase s')
  end.

(** [/w1|w2|...|wn/.test(s)] for literal words: some [wi] occurs in [s]. *)
Definition RegExp_test (alternatives : list string) (s : string) : bool :=
  existsb (fun w => includes w s) alternatives.

(** The words of the two patterns of [detectDeviceType]. *)
Definition mobilePattern : list string :=
  [ "mobile"; "android"; "iphone"; "ipad"; "ipod"; "blackberry";
    "windows phone" ]%string.

Definition tabletPattern : list string :=
  [ "tablet"; "ipad" ]%string.

(** The object [{ isMobile, isTablet, isDesktop }]. *)
Record DeviceType : Type := mkDeviceType {
  isMobile : bool;
  isTablet : bool;
  isDesktop : bool
}.

(** [detectDeviceType()], lines 37-48, with [navigator.userAgent] as a
    parameter. *)
Definition detectDeviceType (navigator_userAgent : string) : DeviceType :=
  let userAgent := toLowerCase navigator_userAgent in
  let isMobile := RegExp_test mobilePattern userAgent in
  let isTablet := RegExp_test tabletPattern userAgent in
  let isDesktop := negb isMobile && negb isTablet in
  mkDeviceType isMobile isTablet isDesktop.

(** [detectBrowser()], lines 57-75, with [navigator.userAgent] as a
    parameter. *)
Definition detectBrowser (userAgent : string) : string :=
  if includes "Firefox" userAgent then "Firefox"
  else if includes "Chrome" userAgent && negb (includes "Edg" userAgent)
       then "Chrome"
  else if includes "Safari" userAgent && negb (includes "Chrome" userAgent)
       then "Safari"
  else if includes "Edg" userAgent then "Edge"
  else if includes "Opera" userAgent || includes "OPR" userAgent
       then "Opera"
  else "Unknown".

(** The restaurants of the script in the order of their ratings, 4.8,
    4.5, 4.2. *)
Definition restaurantsByRating : list Place :=
  [ mkPlace "Restaurant C" 18.9388 72.8354 (Some 4.8);
    mkPlace "Restaurant A" 19.0760 72.8777 (Some 4.5);
    mkPlace "Restaurant B" 19.1136 72.8697 (Some 4.2) ].

(** A restaurant object as the script writes it,
    [{ name, lat, lon, rating }]: the rating is a number. *)
Record Restaurant : Type := mkRestaurant {
  restaurant_name : string;
  restaurant_lat : R;
  restaurant_lon : R;
  restaurant_rating : R
}.

(** The restaurant as a candidate of the ranking. *)
Definition Restaurant_place (r : Restaurant) : Place :=
  mkPlace (restaurant_name r) (restaurant_lat r) (restaurant_lon r)
          (Some (restaurant_rating r)).

(** ** Vocabulary of the ranking properties *)

(** [x] may stand before [y] in a rating-descending order: if both carry
    a rating, that of [y] is not greater.  An absent rating constrains
    nothing. *)
Definition rated_ge (x y : Ranked) : Prop :=
  forall rx ry,
    rating (place x) = Some rx -> rating (place y) = Some ry -> ry <= rx.

(** Sorted by rating, descending: every element may stand before every
    later one. *)
Definition sorted_by_rating_desc (l : list Ranked) : Prop :=
  StronglySorted rated_ge l.

(** [r] carries the rating [v]. *)
Definition hasRating (v : R) (r : Ranked) : bool :=
  match rating (place r) with
  | Some x => if Req_dec_T x v then true else false
  | None => false
  end.

(** The elements of equal rating come in [output] in the order they have
    in [input]. *)
Definition stable_by_rating (input output : list Ranked) : Prop :=
  forall v, filter (hasRating v) output = filter (hasRating v) input.

(** ** Distance *)

Lemma calculateDistance_unfold (lat1 lon1 lat2 lon2 : R) :
  calculateDistance lat1 lon1 lat2 lon2 =
  6371 * (2 * Math_atan2 (sqrt (haversine_a lat1 lon1 lat2 lon2))
                         (sqrt (1 - haversine_a lat1 lon1 lat2 lon2))).
Proof. reflexivity. Qed.

Lemma haversine_a_sym (lat1 lon1 lat2 lon2 : R) :
  haversine_a lat1 lon1 lat2 lon2 = haversine_a lat2 lon2 lat1 lon1.
Proof.
  unfold haversine_a.
  replace ((lat1 - lat2) * PI / 180 / 2) with (- ((lat2 - lat1) * PI / 180 / 2))
    by lra.
  replace ((lon1 - lon2) * PI / 180 / 2) with (- ((lon2 - lon1) * PI / 180 / 2))
    by lra.
  rewrite !sin_neg. ring.
Qed.

Lemma haversine_a_same (lat1 lon1 : R) :
  haversine_a lat1 lon1 lat1 lon1 = 0.
Proof.
  unfold haversine_a.
  replace ((lat1 - lat1) * PI / 180 / 2) with 0 by lra.
  replace ((lon1 - lon1) * PI / 180 / 2) with 0 by lra.
  rewrite sin_0. ring.
Qed.

Lemma Math_atan2_0_1 : Math_atan2 0 1 = 0.
Proof.
  unfold Math_atan2.
  destruct (Rlt_dec 0 1) as [_ | H]; [ | lra ].
  replace (0 / 1) with 0 by lra.
  apply atan_0.
Qed.

Lemma calculateDistance_same (lat1 lon1 : R) :
  calculateDistance lat1 lon1 lat1 lon1 = 0.
Proof.
  rewrite calculateDistance_unfold, haversine_a_same.
  replace (1 - 0) with 1 by lra.
  rewrite sqrt_0, sqrt_1, Math_atan2_0_1. ring.
Qed.

(** C1. For every pair of points, the distance the script computes is the
    Haversine great-circle distance of the specification with Earth
    radius 6371 km: [2 * 6371 * atan2 (sqrt h) (sqrt (1 - h))] with [h]
    built from the latitude and longitude differences in radians. *)
Theorem calculateDistance_is_haversine (a b : GeoPoint) :
  GeoRanker_distance a b = haversine_spec a b.
Proof.
  unfold GeoRanker_distance, haversine_spec, radians.
  rewrite calculateDistance_unfold.
  set (h := haversine_a _ _ _ _).
  set (h' := (_ + _)%R).
  assert (E : h = h') by (unfold h, h', haversine_a, Rsqr; ring).
  rewrite <- E. ring.
Qed.

(** C8. Distance is symmetric under swapping the two points (exact
    equality over real arithmetic). *)
Theorem calculateDistance_symmetric (lat1 lon1 lat2 lon2 : R) :
  calculateDistance lat1 lon1 lat2 lon2 = calculateDistance lat2 lon2 lat1 lon1.
Proof.
  rewrite !calculateDistance_unfold.
  rewrite (haversine_a_sym lat1 lon1 lat2 lon2).
  reflexivity.
Qed.

(** C9. The distance from a point to itself is exactly 0. *)
Theorem calculateDistance_identity (lat1 lon1 : R) :
  calculateDistance lat1 lon1 lat1 lon1 = 0.
Proof. apply calculateDistance_same. Qed.

(** *** Sign of the distance *)

Lemma atan_nonneg (x : R) : 0 <= x -> 0 <= atan x.
Proof.
  intros [Hx | <-].
  - left. rewrite <- atan_0. now apply atan_increasing.
  - rewrite atan_0. lra.
Qed.

(** [Math.atan2(y, x)] is non-negative for [y >= 0]. *)
Lemma Math_atan2_nonneg (y x : R) : 0 <= y -> 0 <= Math_atan2 y x.
Proof.
  intros Hy. unfold Math_atan2.
  pose proof PI_RGT_0 as Hpi.
  destruct (Rlt_dec 0 x) as [Hx | Hx].
  - apply atan_nonneg. unfold Rdiv.
    apply Rmult_le_pos; [ assumption | ].
    left. now apply Rinv_0_lt_compat.
  - destruct (Rlt_dec x 0) as [Hx' | Hx'].
    + pose proof (atan_bound (y / x)) as [Hlo _].
      destruct (Rle_dec 0 y); lra.
    + destruct (Rlt_dec 0 y); [ lra | ].
      destruct (Rlt_dec y 0); lra.
Qed.

(** In exact arithmetic the distance is never negative.  (In binary64
    it is non-negative or NaN, and [NaN <= radius] is false as well.) *)
Lemma calculateDistance_nonneg (lat1 lon1 lat2 lon2 : R) :
  0 <= calculateDistance lat1 lon1 lat2 lon2.
Proof.
  rewrite calculateDistance_unfold.
  pose proof (Math_atan2_nonneg (sqrt (haversine_a lat1 lon1 lat2 lon2))
                (sqrt (1 - haversine_a lat1 lon1 lat2 lon2))
                (sqrt_pos _)).
  lra.
Qed.

(** ** Facts on [Array.prototype.sort] *)

Lemma Rleb_true (x y : R) : Rleb x y = true <-> x <= y.
Proof. unfold Rleb. destruct (Rle_dec x y); split; intros; try easy. Qed.

Lemma Rleb_false (x y : R) : Rleb x y = false <-> y < x.
Proof.
  unfold Rleb. destruct (Rle_dec x y); split; intros; try easy; lra.
Qed.

Section SortFacts.

Context {A : Type}.
Variable comparefn : A -> A -> Number.

Lemma insert_perm (x : A) (l : list A) :
    Permutation (insert comparefn x l) (x :: l).
  Proof.
    induction l as [ | y l IH ]; simpl.
    - apply Permutation_refl.
    - destruct (Rleb (SortCompare comparefn x y) 0).
      + apply Permutation_refl.
      + rewrite IH. apply perm_swap.
  Qed.

  (** Sorting reorders: it neither drops nor adds an element. *)
Lemma sort_perm (l : list A) : Permutation (sort comparefn l) l.
  Proof.
    induction l as [ | x l IH ]; simpl.
    - apply perm_nil.
    - rewrite insert_perm. now apply perm_skip.
  Qed.

Lemma sort_In (x : A) (l : list A) : In x (sort comparefn l) <-> In x l.
  Proof.
    split; apply Permutation_in;
      [ apply sort_perm | apply Permutation_sym, sort_perm ].
  Qed.

  (** Stability, for one class of tied elements: if the elements selected
      by [f] all compare as not greater than one another, sorting keeps
      them in their input order. *)
Lemma insert_filter_stable (f : A -> bool) (x : A) (l : list A) :
    (forall y, In y l -> f x = true -> f y = true ->
               SortCompare comparefn x y <= 0) ->
    filter f (insert comparefn x l) = filter f (x :: l).
  Proof.
    induction l as [ | y l IH ]; intros Htie; simpl; [ reflexivity | ].
    destruct (Rleb (SortCompare comparefn x y) 0) eqn:E; [ reflexivity | ].
    simpl. rewrite IH by (intros z Hz; apply Htie; now right).
    simpl. destruct (f x) eqn:Fx, (f y) eqn:Fy; try reflexivity.
    apply Rleb_false in E.
    specialize (Htie y (or_introl eq_refl) eq_refl Fy). lra.
  Qed.

Lemma sort_filter_stable (f : A -> bool) (l : list A) :
    (forall x y, In x l -> In y l -> f x = true -> f y = true ->
                 SortCompare comparefn x y <= 0) ->
    filter f (sort comparefn l) = filter f l.
  Proof.
    induction l as [ | x l IH ]; intros Htie; simpl; [ reflexivity | ].
    rewrite insert_filter_stable.
    - simpl. rewrite IH; [ reflexivity | ].
      intros a b Ha Hb. apply Htie; now right.
    - intros y Hy. apply Htie; [ now left | right; now apply sort_In ].
  Qed.

  (** When every comparison is a tie, the array is returned as it was. *)
Lemma sort_all_ties (l : list A) :
    (forall x y, In x l -> In y l -> SortCompare comparefn x y <= 0) ->
    sort comparefn l = l.
  Proof.
    intros Htie.
    pose proof (sort_filter_stable (fun _ => true) l) as E.
    assert (Hid : forall k : list A, filter (fun _ => true) k = k).
    { induction k as [ | z k IHk ]; simpl; [ reflexivity | now rewrite IHk ]. }
    rewrite !Hid in E. apply E. intros x y Hx Hy _ _. now apply Htie.
  Qed.

  (** Sortedness, on the elements [P] for which [comparefn] decides a
      transitive relation [Rel]. *)
Section Sortedness.

Variable P : A -> Prop.
Variable Rel : A -> A -> Prop.
Hypothesis Rel_le : forall x y, P x -> P y ->
      SortCompare comparefn x y <= 0 -> Rel x y.
Hypothesis Rel_gt : forall x y, P x -> P y ->
      0 < SortCompare comparefn x y -> Rel y x.
Hypothesis Rel_trans : forall x y z, P x -> P y -> P z ->
      Rel x y -> Rel y z -> Rel x z.

Lemma insert_sorted (x : A) (l : list A) :
      P x -> Forall P l -> StronglySorted Rel l ->
      StronglySorted Rel (insert comparefn x l).
    Proof.
      intros Px. induction l as [ | y l IH ]; intros HP HS; simpl.
      - constructor; constructor.
      - inversion HP as [ | ? ? Py HPl ]; subst.
        inversion HS as [ | ? ? HSl Hy ]; subst.
        destruct (Rleb (SortCompare comparefn x y) 0) eqn:E.
        + apply Rleb_true in E. constructor; [ assumption | ].
          constructor; [ now apply Rel_le | ].
          rewrite Forall_forall in *. intros z Hz.
          apply Rel_trans with y; auto.
        + apply Rleb_false in E. constructor; [ now apply IH | ].
          apply (Permutation_Forall (Permutation_sym (insert_perm x l))).
          constructor; [ now apply Rel_gt | assumption ].
    Qed.

Lemma sort_sorted (l : list A) :
      Forall P l -> StronglySorted Rel (sort comparefn l).
    Proof.
      induction l as [ | x l IH ]; intros HP; simpl.
      - constructor.
      - inversion HP; subst. apply insert_sorted; auto.
        apply (Permutation_Forall (Permutation_sym (sort_perm l))).
        assumption.
    Qed.

End Sortedness.

End SortFacts.


Arguments Rleb : simpl never.

(** Evaluate the boolean comparisons of a goal whose operands are
    numerals. *)
Ltac Rleb_eval :=
  repeat match goal with
         | |- context [Rleb ?a ?b] =>
             first [ rewrite (proj2 (Rleb_true a b)) by lra
                   | rewrite (proj2 (Rleb_false a b)) by lra ]
         end.

(** Run [sort] on a literal list whose comparisons are between
    numerals. *)
Ltac sort_eval :=
  repeat (cbn [map sort insert hd_error SortCompare byRatingDesc byDistance
               withDistance place lat lon rating distance
               ToNumber Number_subtract];
          Rleb_eval).

(** ** [findNearestStore] *)

Lemma SortCompare_byDistance (a b : Ranked) :
  SortCompare byDistance a b = distance a - distance b.
Proof. reflexivity. Qed.

(** The first element of the array sorted by distance: it splits the
    input into the elements before it, all strictly farther, and the
    elements after it, none of them nearer. *)
Lemma sort_byDistance_head (l : list Ranked) :
  l <> [] ->
  exists pre s post,
    l = pre ++ s :: post /\
    hd_error (sort byDistance l) = Some s /\
    (forall x, In x pre -> distance s < distance x) /\
    (forall x, In x post -> distance s <= distance x).
Proof.
  induction l as [ | x l IH ]; intros Hne; [ congruence | ].
  destruct l as [ | y l' ].
  - exists [], x, []. simpl. repeat split; intros z [].
  - destruct IH as (pre & s & post & El & Hhd & Hpre & Hpost);
      [ discriminate | ].
    change (sort byDistance (x :: y :: l'))
      with (insert byDistance x (sort byDistance (y :: l'))).
    destruct (sort byDistance (y :: l')) as [ | h t ];
      [ discriminate | ].
    injection Hhd as ->. simpl insert.
    rewrite SortCompare_byDistance.
    destruct (Rleb (distance x - distance s) 0) eqn:E.
    + apply Rleb_true in E.
      exists [], x, (y :: l').
      split; [ reflexivity | ]. split; [ reflexivity | ].
      split; [ intros z [] | ].
      intros z Hz. rewrite El in Hz.
      apply in_app_or in Hz. destruct Hz as [Hz | [<- | Hz]].
      * specialize (Hpre z Hz). lra.
      * lra.
      * specialize (Hpost z Hz). lra.
    + apply Rleb_false in E.
      exists (x :: pre), s, post. rewrite El. simpl. repeat split.
      * intros z [<- | Hz]; [ lra | now apply Hpre ].
      * assumption.
Qed.

(** In exact arithmetic, where every distance is a number and the
    comparison by distance is consistent, [findNearestStore] over a
    non-empty list returns a candidate of minimal distance, the first
    in input order among those at that distance.  The script computes
    in binary64: at [findNearestStore(-19.075999884, -107.122300312)]
    the haversine term for Store A rounds to 1.0000000000000002, its
    distance is NaN and ties with the two others, and Store A is
    returned although Store C is nearer.  This lemma says that the
    ranking is right up to that rounding; it is no statement on the
    binary64 result. *)
Lemma findNearestStore_of_exact_arithmetic
  (candidates : list Place) (userLat userLon : R) :
  candidates <> [] ->
  exists pre s post,
    candidates = pre ++ s :: post /\
    findNearestStore_of candidates userLat userLon
      = Normal (withDistance userLat userLon s) /\
    (forall c, In c pre ->
       calculateDistance userLat userLon (lat s) (lon s)
       < calculateDistance userLat userLon (lat c) (lon c)) /\
    (forall c, In c post ->
       calculateDistance userLat userLon (lat s) (lon s)
       <= calculateDistance userLat userLon (lat c) (lon c)).
Proof.
  intros Hne.
  destruct (sort_byDistance_head (map (withDistance userLat userLon) candidates))
    as (pre' & s' & post' & El & Hhd & Hpre & Hpost).
  { destruct candidates; [ congruence | discriminate ]. }
  apply map_eq_app in El. destruct El as (pre & rest & -> & <- & Erest).
  apply map_eq_cons in Erest. destruct Erest as (s & post & -> & <- & <-).
  exists pre, s, post. split; [ reflexivity | ].
  split; [ unfold findNearestStore_of; now rewrite Hhd | ].
  split; intros c Hc.
  - apply (Hpre (withDistance userLat userLon c)). now apply in_map.
  - apply (Hpost (withDistance userLat userLon c)). now apply in_map.
Qed.

(** An element that compares as not greater than every element of the
    sorted rest goes to the front. *)
Lemma insert_head_least {A : Type} (comparefn : A -> A -> Number)
  (x : A) (l : list A) :
  (forall y, In y l -> SortCompare comparefn x y <= 0) ->
  insert comparefn x l = x :: l.
Proof.
  destruct l as [ | y l ]; intros H; simpl; [ reflexivity | ].
  rewrite (proj2 (Rleb_true _ _)); [ reflexivity | ].
  apply H. now left.
Qed.

(** The call of the script, [findNearestStore(19.0760, 72.8777)], made
    from the position of Store A, returns Store A at distance 0. *)
Example findNearestStore_at_store_A :
  findNearestStore 19.0760 72.8777
  = Normal (mkRanked (mkPlace "Store A" 19.0760 72.8777 None) 0).
Proof.
  unfold findNearestStore, findNearestStore_of, stores.
  cbn [map]. unfold withDistance at 1. cbn [lat lon].
  rewrite calculateDistance_same.
  match goal with
  | |- context [sort byDistance (?a :: ?rest)] =>
      change (sort byDistance (a :: rest))
        with (insert byDistance a (sort byDistance rest));
      rewrite (insert_head_least byDistance a (sort byDistance rest))
  end.
  - reflexivity.
  - intros y Hy. rewrite SortCompare_byDistance. cbn [distance].
    assert (0 <= distance y); [ | lra ].
    apply sort_In in Hy.
    destruct Hy as [<- | [<- | []]]; apply calculateDistance_nonneg.
Qed.

(** ** [findNearbyRestaurants] *)

Lemma findNearbyRestaurants_of_eq (candidates : list Place)
  (userLat userLon radius : R) :
  findNearbyRestaurants_of candidates userLat userLon (Some radius)
  = Normal (sort byRatingDesc (inRadius candidates userLat userLon radius)).
Proof. reflexivity. Qed.

Lemma inRadius_In (candidates : list Place) (userLat userLon radius : R)
  (r : Ranked) :
  In r (inRadius candidates userLat userLon radius) <->
  exists c, In c candidates /\ r = withDistance userLat userLon c /\
            calculateDistance userLat userLon (lat c) (lon c) <= radius.
Proof.
  unfold inRadius. rewrite filter_In, in_map_iff, Rleb_true. split.
  - intros [(c & <- & Hc) Hd]. exists c. now repeat split.
  - intros (c & Hc & -> & Hd). split; [ now exists c | exact Hd ].
Qed.

(** C4. For every origin, candidate sequence and radius (non-negative or
    not), the result holds exactly the candidates whose distance to the
    origin is at most the radius, each as often as the input has it: a
    candidate at exactly the radius is kept, one beyond it is dropped. *)
Theorem findNearbyRestaurants_of_within_radius
  (candidates : list Place) (userLat userLon radius : R) :
  exists nearby,
    findNearbyRestaurants_of candidates userLat userLon (Some radius)
      = Normal nearby /\
    Permutation nearby
      (filter (fun r => Rleb (distance r) radius)
         (map (withDistance userLat userLon) candidates)) /\
    forall r, In r nearby <->
      exists c, In c candidates /\ r = withDistance userLat userLon c /\
                calculateDistance userLat userLon (lat c) (lon c) <= radius.
Proof.
  exists (sort byRatingDesc (inRadius candidates userLat userLon radius)).
  split; [ reflexivity | ]. split.
  - apply sort_perm.
  - intros r. rewrite sort_In. apply inRadius_In.
Qed.

Lemma inRadius_negative (candidates : list Place) (userLat userLon radius : R) :
  radius < 0 -> inRadius candidates userLat userLon radius = [].
Proof.
  intros Hneg. unfold inRadius.
  induction candidates as [ | c cs IH ]; [ reflexivity | ].
  cbn [map filter]. rewrite IH.
  rewrite (proj2 (Rleb_false _ _)); [ reflexivity | ].
  unfold withDistance. cbn [distance].
  pose proof (calculateDistance_nonneg userLat userLon (lat c) (lon c)). lra.
Qed.

(** C6, as the specification states it, fails: with radius [-1] the
    script's function returns the empty sequence and raises no
    InvalidArgumentError. *)
Lemma findNearbyRestaurants_negative_radius_returns :
  findNearbyRestaurants 19.0760 72.8777 (Some (-1)) = Normal [] /\
  findNearbyRestaurants 19.0760 72.8777 (Some (-1))
    <> Throw "InvalidArgumentError".
Proof.
  assert (E : findNearbyRestaurants 19.0760 72.8777 (Some (-1)) = Normal []).
  { unfold findNearbyRestaurants. rewrite findNearbyRestaurants_of_eq.
    rewrite inRadius_negative by lra. reflexivity. }
  split; [ exact E | rewrite E; discriminate ].
Qed.

(** C6, amended. For every origin and candidate sequence, a negative
    radius is not rejected: no distance is negative, so no candidate
    passes the filter and the empty sequence is returned. *)
Theorem findNearbyRestaurants_of_negative_radius
  (candidates : list Place) (userLat userLon radius : R) :
  radius < 0 ->
  findNearbyRestaurants_of candidates userLat userLon (Some radius) = Normal [].
Proof.
  intros Hneg. rewrite findNearbyRestaurants_of_eq.
  now rewrite inRadius_negative.
Qed.

Lemma findNearbyRestaurants_of_negative_radius_witness :
  findNearbyRestaurants_of restaurants 19.0760 72.8777 (Some (-1)) = Normal [].
Proof.
  apply (findNearbyRestaurants_of_negative_radius restaurants
           19.0760 72.8777 (-1)).
  lra.
Defined.

(** C10. Without a radius argument the radius is 5 km: the call returns
    what the call with radius 5 returns. *)
Theorem findNearbyRestaurants_default_radius (userLat userLon : R) :
  findNearbyRestaurants userLat userLon None
  = findNearbyRestaurants userLat userLon (Some 5).
Proof. reflexivity. Qed.

(** *** Rating order *)

Lemma SortCompare_byRatingDesc_rated (x y : Ranked) (rx ry : R) :
  rating (place x) = Some rx -> rating (place y) = Some ry ->
  SortCompare byRatingDesc x y = ry - rx.
Proof.
  intros Ex Ey. unfold SortCompare, byRatingDesc. now rewrite Ex, Ey.
Qed.

Lemma hasRating_true (v : R) (r : Ranked) :
  hasRating v r = true <-> rating (place r) = Some v.
Proof.
  unfold hasRating. destruct (rating (place r)) as [x | ].
  - destruct (Req_dec_T x v) as [-> | Hne]; split; intros H;
      try reflexivity; try discriminate.
    injection H as ->. now contradiction Hne.
  - split; discriminate.
Qed.

Lemma sort_byRatingDesc_sorted (l : list Ranked) :
  Forall (fun r => rating (place r) <> None) l ->
  sorted_by_rating_desc (sort byRatingDesc l).
Proof.
  apply sort_sorted.
  - intros x y Px Py Hle rx ry Ex Ey.
    rewrite (SortCompare_byRatingDesc_rated x y rx ry Ex Ey) in Hle. lra.
  - intros x y Px Py Hgt ry rx Ey Ex.
    rewrite (SortCompare_byRatingDesc_rated x y rx ry Ex Ey) in Hgt. lra.
  - intros x y z _ Py _ Hxy Hyz rx rz Ex Ez.
    destruct (rating (place y)) as [ry | ] eqn:Ey; [ | congruence ].
    specialize (Hxy rx ry Ex Ey). specialize (Hyz ry rz Ey Ez).
    lra.
Qed.

Lemma sort_byRatingDesc_stable (l : list Ranked) :
  stable_by_rating l (sort byRatingDesc l).
Proof.
  intros v. apply sort_filter_stable.
  intros x y _ _ Hx Hy. apply hasRating_true in Hx, Hy.
  rewrite (SortCompare_byRatingDesc_rated x y v v Hx Hy). lra.
Qed.

(** When the candidates within the radius all carry a rating, the
    result is sorted by rating in descending order and candidates of
    equal rating keep their relative input order. *)
Lemma sorted_stable_when_rated
  (candidates : list Place) (userLat userLon radius : R) :
  (forall c, In c candidates ->
     calculateDistance userLat userLon (lat c) (lon c) <= radius ->
     rating c <> None) ->
  exists nearby,
    findNearbyRestaurants_of candidates userLat userLon (Some radius)
      = Normal nearby /\
    Forall (fun r => rating (place r) <> None) nearby /\
    sorted_by_rating_desc nearby /\
    stable_by_rating (inRadius candidates userLat userLon radius) nearby.
Proof.
  intros Hrated.
  assert (HF : Forall (fun r => rating (place r) <> None)
                 (inRadius candidates userLat userLon radius)).
  { apply Forall_forall. intros r Hr.
    apply inRadius_In in Hr. destruct Hr as (c & Hc & -> & Hd).
    now apply Hrated. }
  exists (sort byRatingDesc (inRadius candidates userLat userLon radius)).
  split; [ reflexivity | ]. split; [ | split ].
  - apply (Permutation_Forall (Permutation_sym (sort_perm _ _))). exact HF.
  - now apply sort_byRatingDesc_sorted.
  - apply sort_byRatingDesc_stable.
Qed.

(** C5. For every origin, every sequence of restaurants as the script
    writes them (each with its rating) and every radius, non-negative
    or not, the sequence returned is sorted by rating in descending
    order, and retained candidates of equal rating keep the relative
    order they had in the input. *)
Theorem findNearbyRestaurants_of_sorted_by_rating
  (candidates : list Restaurant) (userLat userLon radius : R) :
  exists nearby,
    findNearbyRestaurants_of (map Restaurant_place candidates)
      userLat userLon (Some radius) = Normal nearby /\
    Forall (fun r => rating (place r) <> None) nearby /\
    sorted_by_rating_desc nearby /\
    stable_by_rating
      (inRadius (map Restaurant_place candidates) userLat userLon radius)
      nearby.
Proof.
  apply sorted_stable_when_rated.
  intros c Hc _. apply in_map_iff in Hc.
  destruct Hc as (r & <- & _). discriminate.
Qed.

(** The restaurants of the script are three such objects, so that its
    function returns a sequence sorted by rating for every origin and
    radius. *)
Lemma restaurants_objects :
  restaurants
  = map Restaurant_place
      [ mkRestaurant "Restaurant A" 19.0760 72.8777 4.5;
        mkRestaurant "Restaurant B" 19.1136 72.8697 4.2;
        mkRestaurant "Restaurant C" 18.9388 72.8354 4.8 ].
Proof. reflexivity. Qed.

Lemma findNearbyRestaurants_sorted_by_rating (userLat userLon radius : R) :
  exists nearby,
    findNearbyRestaurants userLat userLon (Some radius) = Normal nearby /\
    Forall (fun r => rating (place r) <> None) nearby /\
    sorted_by_rating_desc nearby /\
    stable_by_rating (inRadius restaurants userLat userLon radius) nearby.
Proof.
  apply sorted_stable_when_rated.
  unfold restaurants. intros c [<- | [<- | [<- | []]]] _; discriminate.
Qed.

(** ** Runs on literal inputs *)

(** The three ratings of the script, at one location: the result is in
    the order 4.8, 4.5, 4.2. *)
Example findNearbyRestaurants_of_by_rating :
  findNearbyRestaurants_of
    [ mkPlace "Restaurant A" 19.0760 72.8777 (Some 4.5);
      mkPlace "Restaurant B" 19.0760 72.8777 (Some 4.2);
      mkPlace "Restaurant C" 19.0760 72.8777 (Some 4.8) ]
    19.0760 72.8777 None
  = Normal
      [ mkRanked (mkPlace "Restaurant C" 19.0760 72.8777 (Some 4.8)) 0;
        mkRanked (mkPlace "Restaurant A" 19.0760 72.8777 (Some 4.5)) 0;
        mkRanked (mkPlace "Restaurant B" 19.0760 72.8777 (Some 4.2)) 0 ].
Proof.
  unfold findNearbyRestaurants_of. cbn [map lat lon].
  rewrite calculateDistance_same. cbn [filter distance]. Rleb_eval.
  now sort_eval.
Qed.

(** ** Further properties of [calculateDistance] *)

(** The angle of [(cos v, sin v)] is [v] on the first quadrant. *)
Lemma Math_atan2_sin_cos (v : R) :
  0 <= v <= PI / 2 -> Math_atan2 (sin v) (cos v) = v.
Proof.
  intros [Hlo [Hhi | ->]].
  - unfold Math_atan2.
    assert (Hc : 0 < cos v) by (apply cos_gt_0; lra).
    destruct (Rlt_dec 0 (cos v)) as [_ | Hn]; [ | contradiction ].
    change (sin v / cos v) with (tan v). apply atan_tan. lra.
  - unfold Math_atan2. rewrite cos_PI2, sin_PI2.
    destruct (Rlt_dec 0 0); [ lra | ].
    destruct (Rlt_dec 0 1); lra.
Qed.

(** With haversine term [sin² u], the central angle is [2 |u|]. *)
Lemma Math_atan2_half_angle (u : R) :
  - (PI / 2) <= u <= PI / 2 ->
  Math_atan2 (sqrt (sin u * sin u)) (sqrt (1 - sin u * sin u)) = Rabs u.
Proof.
  intros [Hlo Hhi].
  pose proof PI_RGT_0 as Hpi.
  assert (Es : sqrt (sin u * sin u) = sin (Rabs u)).
  { change (sin u * sin u) with (Rsqr (sin u)). rewrite sqrt_Rsqr_abs.
    destruct (Rle_lt_dec 0 u) as [Hu | Hu].
    - rewrite (Rabs_right u) by lra.
      apply Rabs_right, Rle_ge, sin_ge_0; lra.
    - rewrite (Rabs_left u) by lra. rewrite sin_neg.
      apply Rabs_left.
      assert (0 < sin (- u)) by (apply sin_gt_0; lra).
      rewrite sin_neg in *. lra. }
  assert (Ec : sqrt (1 - sin u * sin u) = cos (Rabs u)).
  { pose proof (sin2_cos2 u) as E. unfold Rsqr in E.
    replace (1 - sin u * sin u) with (Rsqr (cos u)) by (unfold Rsqr; lra).
    rewrite sqrt_Rsqr by (apply cos_ge_0; lra).
    destruct (Rle_lt_dec 0 u) as [Hu | Hu].
    - now rewrite (Rabs_right u) by lra.
    - rewrite (Rabs_left u) by lra. now rewrite cos_neg. }
  rewrite Es, Ec. apply Math_atan2_sin_cos.
  split; [ apply Rabs_pos | ].
  unfold Rabs. destruct (Rcase_abs u); lra.
Qed.

(** X3. The distance depends on the longitudes through their difference
    only: shifting both points by the same longitude keeps it. *)
Theorem calculateDistance_longitude_shift (lat1 lon1 lat2 lon2 d : R) :
  calculateDistance lat1 (lon1 + d) lat2 (lon2 + d)
  = calculateDistance lat1 lon1 lat2 lon2.
Proof.
  rewrite !calculateDistance_unfold. unfold haversine_a.
  replace ((lon2 + d - (lon1 + d)) * PI / 180 / 2)
    with ((lon2 - lon1) * PI / 180 / 2) by lra.
  reflexivity.
Qed.

(** X5. Mirror images are equally far apart: negating both latitudes
    (reflection in the equator) or both longitudes (reflection in the
    prime meridian) keeps the distance. *)
Theorem calculateDistance_mirror (lat1 lon1 lat2 lon2 : R) :
  calculateDistance (- lat1) lon1 (- lat2) lon2
    = calculateDistance lat1 lon1 lat2 lon2 /\
  calculateDistance lat1 (- lon1) lat2 (- lon2)
    = calculateDistance lat1 lon1 lat2 lon2.
Proof.
  rewrite !calculateDistance_unfold. unfold haversine_a. split.
  - replace ((- lat2 - - lat1) * PI / 180 / 2)
      with (- ((lat2 - lat1) * PI / 180 / 2)) by lra.
    replace (- lat1 * PI / 180) with (- (lat1 * PI / 180)) by lra.
    replace (- lat2 * PI / 180) with (- (lat2 * PI / 180)) by lra.
    rewrite sin_neg, !cos_neg.
    replace (- sin ((lat2 - lat1) * PI / 180 / 2)
             * - sin ((lat2 - lat1) * PI / 180 / 2))
      with (sin ((lat2 - lat1) * PI / 180 / 2)
            * sin ((lat2 - lat1) * PI / 180 / 2)) by ring.
    reflexivity.
  - replace ((- lon2 - - lon1) * PI / 180 / 2)
      with (- ((lon2 - lon1) * PI / 180 / 2)) by lra.
    rewrite sin_neg.
    replace (cos (lat1 * PI / 180) * cos (lat2 * PI / 180)
             * - sin ((lon2 - lon1) * PI / 180 / 2)
             * - sin ((lon2 - lon1) * PI / 180 / 2))
      with (cos (lat1 * PI / 180) * cos (lat2 * PI / 180)
            * sin ((lon2 - lon1) * PI / 180 / 2)
            * sin ((lon2 - lon1) * PI / 180 / 2)) by ring.
    reflexivity.
Qed.

Lemma Rabs_half_angle (d : R) :
  Rabs (d * PI / 180 / 2) = Rabs d * PI / 180 / 2.
Proof.
  pose proof PI_RGT_0 as Hpi.
  unfold Rabs. destruct (Rcase_abs d) as [Hd | Hd];
    destruct (Rcase_abs (d * PI / 180 / 2)) as [Hu | Hu]; try lra; nra.
Qed.

Lemma half_angle_bounds (d : R) :
  -180 <= d <= 180 -> - (PI / 2) <= d * PI / 180 / 2 <= PI / 2.
Proof. pose proof PI_RGT_0 as Hpi. intros [Hlo Hhi]. split; nra. Qed.

(** X6. Along a meridian the distance is the arc length: two points of
    equal longitude whose latitudes differ by at most 180 degrees are
    [6371 * |lat2 - lat1| * PI / 180] km apart. *)
Theorem calculateDistance_meridian (lat1 lat2 lon1 : R) :
  -180 <= lat2 - lat1 <= 180 ->
  calculateDistance lat1 lon1 lat2 lon1
  = 6371 * (Rabs (lat2 - lat1) * PI / 180).
Proof.
  intros Hd. rewrite calculateDistance_unfold.
  assert (Ea : haversine_a lat1 lon1 lat2 lon1
               = sin ((lat2 - lat1) * PI / 180 / 2)
                 * sin ((lat2 - lat1) * PI / 180 / 2)).
  { unfold haversine_a.
    replace ((lon1 - lon1) * PI / 180 / 2) with 0 by lra.
    rewrite sin_0. ring. }
  rewrite Ea, Math_atan2_half_angle by now apply half_angle_bounds.
  rewrite Rabs_half_angle. lra.
Qed.

Lemma calculateDistance_meridian_witness :
  calculateDistance 18.9388 72.8777 19.1136 72.8777
  = 6371 * (Rabs (19.1136 - 18.9388) * PI / 180).
Proof.
  apply (calculateDistance_meridian 18.9388 19.1136 72.8777). lra.
Defined.

(** X7. Along the equator the distance is the arc length: two points of
    latitude 0 whose longitudes differ by at most 180 degrees are
    [6371 * |lon2 - lon1| * PI / 180] km apart. *)
Theorem calculateDistance_equator (lon1 lon2 : R) :
  -180 <= lon2 - lon1 <= 180 ->
  calculateDistance 0 lon1 0 lon2 = 6371 * (Rabs (lon2 - lon1) * PI / 180).
Proof.
  intros Hd. rewrite calculateDistance_unfold.
  assert (Ea : haversine_a 0 lon1 0 lon2
               = sin ((lon2 - lon1) * PI / 180 / 2)
                 * sin ((lon2 - lon1) * PI / 180 / 2)).
  { unfold haversine_a.
    replace ((0 - 0) * PI / 180 / 2) with 0 by lra.
    replace (0 * PI / 180) with 0 by lra.
    rewrite sin_0, cos_0. ring. }
  rewrite Ea, Math_atan2_half_angle by now apply half_angle_bounds.
  rewrite Rabs_half_angle. lra.
Qed.

Lemma calculateDistance_equator_witness :
  calculateDistance 0 72.8354 0 72.8777
  = 6371 * (Rabs (72.8777 - 72.8354) * PI / 180).
Proof.
  apply (calculateDistance_equator 72.8354 72.8777). lra.
Defined.

(** ** Further properties of [findNearestStore] *)

(** The first element of a sorted non-empty array exists and is one of
    the elements, whatever the comparison function. *)
Lemma sort_head_In {A : Type} (comparefn : A -> A -> Number) (l : list A) :
  l <> [] ->
  exists h, hd_error (sort comparefn l) = Some h /\ In h l.
Proof.
  intros Hne. destruct (sort comparefn l) as [ | h t ] eqn:E.
  - pose proof (sort_perm comparefn l) as HP. rewrite E in HP.
    apply Permutation_nil in HP. contradiction.
  - exists h. split; [ reflexivity | ].
    apply (sort_In comparefn). rewrite E. now left.
Qed.

(** X19. The function of the script never throws: for every position
    it returns one of its three stores, with the distance computed for
    that store.  The reads [nearest.lat] and [nearest.lon] of
    [setupStoreLocator] are reads of a store. *)
Theorem findNearestStore_returns_store (userLat userLon : R) :
  exists s,
    In s stores /\
    findNearestStore userLat userLon
      = Normal (withDistance userLat userLon s).
Proof.
  destruct (sort_head_In byDistance (map (withDistance userLat userLon) stores))
    as (h & Hhd & Hin); [ discriminate | ].
  apply in_map_iff in Hin. destruct Hin as (s & <- & Hs).
  exists s. split; [ exact Hs | ].
  unfold findNearestStore, findNearestStore_of. now rewrite Hhd.
Qed.

(** ** Further properties of [findNearbyRestaurants] *)

(** Filtering a sorted array leaves it sorted, so that sorting after the
    filter is filtering after the sort, on elements [P] that
    [comparefn] orders totally. *)
Section SortFilter.

Context {A : Type}.
Variable comparefn : A -> A -> Number.
Variable P : A -> Prop.
Hypothesis ord_total : forall x y, P x -> P y ->
  0 < SortCompare comparefn x y -> SortCompare comparefn y x <= 0.
Hypothesis ord_trans : forall x y z, P x -> P y -> P z ->
  SortCompare comparefn x y <= 0 -> SortCompare comparefn y z <= 0 ->
  SortCompare comparefn x z <= 0.

Lemma insert_filter_commute (f : A -> bool) (x : A) (l : list A) :
  P x -> Forall P l ->
  StronglySorted (fun a b => SortCompare comparefn a b <= 0) l ->
  filter f (insert comparefn x l)
  = if f x then insert comparefn x (filter f l) else filter f l.
Proof.
  intros Px. induction l as [ | y l IH ]; intros HP HS.
  - simpl. now destruct (f x).
  - inversion HP as [ | ? ? Py HPl ]; subst.
    inversion HS as [ | ? ? HSl Hy ]; subst.
    cbn [insert]. destruct (Rleb (SortCompare comparefn x y) 0) eqn:E.
    + cbn [filter]. destruct (f x) eqn:Fx; [ | reflexivity ].
      symmetry. apply insert_head_least.
      intros z Hz. apply Rleb_true in E.
      assert (Hz' : In z (y :: l)).
      { destruct (f y); [ destruct Hz as [<- | Hz]; [ now left | right ] | right ];
          now apply filter_In in Hz. }
      destruct Hz' as [<- | Hz']; [ assumption | ].
      rewrite Forall_forall in Hy, HPl.
      apply ord_trans with y; auto.
    + cbn [filter]. rewrite (IH HPl HSl).
      destruct (f x) eqn:Fx, (f y) eqn:Fy; try reflexivity.
      cbn [insert]. now rewrite E.
Qed.

Lemma sort_filter_commute (f : A -> bool) (l : list A) :
  Forall P l ->
  sort comparefn (filter f l) = filter f (sort comparefn l).
Proof.
  induction l as [ | x l IH ]; intros HP; [ reflexivity | ].
  inversion HP as [ | ? ? Px HPl ]; subst.
  cbn [sort]. rewrite insert_filter_commute.
  - cbn [filter]. destruct (f x); cbn [sort]; now rewrite IH.
  - assumption.
  - apply (Permutation_Forall (Permutation_sym (sort_perm comparefn l))).
    assumption.
  - apply (sort_sorted comparefn P); auto.
Qed.

End SortFilter.

Lemma sort_filter_byRatingDesc (f : Ranked -> bool) (l : list Ranked) :
  Forall (fun r => rating (place r) <> None) l ->
  sort byRatingDesc (filter f l) = filter f (sort byRatingDesc l).
Proof.
  apply sort_filter_commute.
  - intros x y Px Py.
    destruct (rating (place x)) as [rx | ] eqn:Ex; [ | congruence ].
    destruct (rating (place y)) as [ry | ] eqn:Ey; [ | congruence ].
    rewrite (SortCompare_byRatingDesc_rated x y rx ry Ex Ey).
    rewrite (SortCompare_byRatingDesc_rated y x ry rx Ey Ex). lra.
  - intros x y z Px Py Pz.
    destruct (rating (place x)) as [rx | ] eqn:Ex; [ | congruence ].
    destruct (rating (place y)) as [ry | ] eqn:Ey; [ | congruence ].
    destruct (rating (place z)) as [rz | ] eqn:Ez; [ | congruence ].
    rewrite (SortCompare_byRatingDesc_rated x y rx ry Ex Ey).
    rewrite (SortCompare_byRatingDesc_rated y z ry rz Ey Ez).
    rewrite (SortCompare_byRatingDesc_rated x z rx rz Ex Ez). lra.
Qed.

Lemma findNearbyRestaurants_of_commute
  (candidates : list Place) (userLat userLon radius : R) :
  (forall c, In c candidates -> rating c <> None) ->
  findNearbyRestaurants_of candidates userLat userLon (Some radius)
  = Normal (filter (fun r => Rleb (distance r) radius)
              (sort byRatingDesc (map (withDistance userLat userLon) candidates))).
Proof.
  intros Hrated. rewrite findNearbyRestaurants_of_eq. unfold inRadius.
  rewrite sort_filter_byRatingDesc; [ reflexivity | ].
  apply Forall_forall. intros r Hr.
  apply in_map_iff in Hr. destruct Hr as (c & <- & Hc). now apply Hrated.
Qed.

(** X10. When every candidate carries a rating, filtering by radius and
    then sorting by rating gives what sorting all candidates by rating
    and then filtering gives: the result is the full ranking with the
    candidates beyond the radius struck out. *)
Theorem findNearbyRestaurants_of_filter_after_sort
  (candidates : list Place) (userLat userLon radius : R) :
  (forall c, In c candidates -> rating c <> None) ->
  findNearbyRestaurants_of candidates userLat userLon (Some radius)
  = Normal (filter (fun r => Rleb (distance r) radius)
              (sort byRatingDesc (map (withDistance userLat userLon) candidates))).
Proof. apply findNearbyRestaurants_of_commute. Qed.

Lemma findNearbyRestaurants_of_filter_after_sort_witness :
  findNearbyRestaurants_of restaurants 19.0760 72.8777 (Some 5)
  = Normal (filter (fun r => Rleb (distance r) 5)
              (sort byRatingDesc (map (withDistance 19.0760 72.8777) restaurants))).
Proof.
  apply (findNearbyRestaurants_of_filter_after_sort restaurants
           19.0760 72.8777 5).
  unfold restaurants. intros c [<- | [<- | [<- | []]]]; discriminate.
Defined.

Lemma filter_filter_weaker {A : Type} (f g : A -> bool) (l : list A) :
  (forall x, f x = true -> g x = true) ->
  filter f (filter g l) = filter f l.
Proof.
  intros Hfg. induction l as [ | x l IH ]; [ reflexivity | ].
  cbn [filter]. destruct (g x) eqn:Gx.
  - cbn [filter]. now rewrite IH.
  - rewrite IH. destruct (f x) eqn:Fx; [ | reflexivity ].
    apply Hfg in Fx. congruence.
Qed.

(** X11. A larger radius never loses a result: every entry returned for
    a radius is returned for every larger radius, for all candidate
    sequences, rated or not. *)
Theorem findNearbyRestaurants_of_radius_monotone
  (candidates : list Place) (userLat userLon r1 r2 : R) :
  r1 <= r2 ->
  exists nearby1 nearby2,
    findNearbyRestaurants_of candidates userLat userLon (Some r1)
      = Normal nearby1 /\
    findNearbyRestaurants_of candidates userLat userLon (Some r2)
      = Normal nearby2 /\
    incl nearby1 nearby2.
Proof.
  intros Hle.
  exists (sort byRatingDesc (inRadius candidates userLat userLon r1)),
         (sort byRatingDesc (inRadius candidates userLat userLon r2)).
  split; [ reflexivity | ]. split; [ reflexivity | ].
  intros r Hr. apply sort_In. apply sort_In in Hr.
  apply inRadius_In in Hr. destruct Hr as (c & Hc & -> & Hd).
  apply inRadius_In. exists c. repeat split; [ assumption | lra ].
Qed.

Lemma findNearbyRestaurants_of_radius_monotone_witness :
  exists nearby1 nearby2,
    findNearbyRestaurants_of restaurants 19.0760 72.8777 (Some 5)
      = Normal nearby1 /\
    findNearbyRestaurants_of restaurants 19.0760 72.8777 (Some 20)
      = Normal nearby2 /\
    incl nearby1 nearby2.
Proof.
  apply (findNearbyRestaurants_of_radius_monotone restaurants
           19.0760 72.8777 5 20).
  lra.
Defined.

(** X12. When every candidate carries a rating, the result for a radius
    is the result for any larger radius with the entries beyond the
    smaller radius removed: shrinking the radius never reorders. *)
Theorem findNearbyRestaurants_of_shrink_radius
  (candidates : list Place) (userLat userLon r1 r2 : R) :
  r1 <= r2 ->
  (forall c, In c candidates -> rating c <> None) ->
  exists nearby1 nearby2,
    findNearbyRestaurants_of candidates userLat userLon (Some r1)
      = Normal nearby1 /\
    findNearbyRestaurants_of candidates userLat userLon (Some r2)
      = Normal nearby2 /\
    nearby1 = filter (fun r => Rleb (distance r) r1) nearby2.
Proof.
  intros Hle Hrated.
  rewrite !findNearbyRestaurants_of_commute by assumption.
  eexists. eexists. split; [ reflexivity | ]. split; [ reflexivity | ].
  symmetry. apply filter_filter_weaker.
  intros x Hx. apply Rleb_true in Hx. apply Rleb_true. lra.
Qed.

Lemma findNearbyRestaurants_of_shrink_radius_witness :
  exists nearby1 nearby2,
    findNearbyRestaurants_of restaurants 19.0760 72.8777 (Some 5)
      = Normal nearby1 /\
    findNearbyRestaurants_of restaurants 19.0760 72.8777 (Some 20)
      = Normal nearby2 /\
    nearby1 = filter (fun r => Rleb (distance r) 5) nearby2.
Proof.
  apply (findNearbyRestaurants_of_shrink_radius restaurants
           19.0760 72.8777 5 20).
  - lra.
  - unfold restaurants. intros c [<- | [<- | [<- | []]]]; discriminate.
Defined.

(** X13. The function of the script always lists its restaurants in the
    order C (4.8), A (4.5), B (4.2): for every origin and radius the
    result is that ranking, with distances, without the restaurants
    beyond the radius. *)
Theorem findNearbyRestaurants_ranking (userLat userLon radius : R) :
  findNearbyRestaurants userLat userLon (Some radius)
  = Normal (filter (fun r => Rleb (distance r) radius)
              (map (withDistance userLat userLon) restaurantsByRating)).
Proof.
  unfold findNearbyRestaurants.
  rewrite findNearbyRestaurants_of_commute.
  - f_equal. f_equal. unfold restaurants, restaurantsByRating.
    now sort_eval.
  - unfold restaurants. intros c [<- | [<- | [<- | []]]]; discriminate.
Qed.

(** ** Device and browser detection *)

Lemma prefix_app (w post : string) : prefix w (w ++ post) = true.
Proof.
  induction w as [ | a w IH ]; [ now destruct post | ].
  cbn. destruct (ascii_dec a a); [ exact IH | congruence ].
Qed.

Lemma prefix_inv (w s : string) :
  prefix w s = true -> exists post, s = (w ++ post)%string.
Proof.
  revert s. induction w as [ | a w IH ]; intros s H.
  - now exists s.
  - destruct s as [ | b s ]; [ discriminate | ].
    cbn in H. destruct (ascii_dec a b) as [<- | ]; [ | discriminate ].
    destruct (IH s H) as [post ->]. now exists post.
Qed.

Lemma includes_unfold (w s : string) :
  includes w s
  = (prefix w s ||
     match s with
     | EmptyString => false
     | String _ s' => includes w s'
     end)%bool.
Proof. now destruct s. Qed.

(** [includes] finds exactly the occurrences of the word. *)
Lemma includes_intro (w pre post : string) :
  includes w (pre ++ w ++ post) = true.
Proof.
  induction pre as [ | a pre IH ]; rewrite includes_unfold.
  - cbn [append]. now rewrite prefix_app.
  - cbn [append]. rewrite IH. apply orb_true_r.
Qed.

Lemma includes_inv (w s : string) :
  includes w s = true -> exists pre post, s = (pre ++ w ++ post)%string.
Proof.
  induction s as [ | a s IH ]; rewrite includes_unfold; intros H;
    apply orb_true_iff in H; destruct H as [H | H].
  - apply prefix_inv in H. destruct H as [post ->]. now exists EmptyString, post.
  - discriminate.
  - apply prefix_inv in H. destruct H as [post ->]. now exists EmptyString, post.
  - destruct (IH H) as (pre & post & ->). now exists (String a pre), post.
Qed.

Lemma toLowerCase_app (s t : string) :
  toLowerCase (s ++ t) = (toLowerCase s ++ toLowerCase t)%string.
Proof.
  induction s as [ | a s IH ]; [ reflexivity | ].
  cbn [append toLowerCase]. now rewrite IH.
Qed.

(** A word found in a string is found, in lower case, in the lower case
    of the string. *)
Lemma includes_toLowerCase (w s : string) :
  includes w s = true -> includes (toLowerCase w) (toLowerCase s) = true.
Proof.
  intros H. apply includes_inv in H. destruct H as (pre & post & ->).
  rewrite !toLowerCase_app. apply includes_intro.
Qed.

Lemma RegExp_test_true (alternatives : list string) (s : string) :
  RegExp_test alternatives s = true <->
  exists w, In w alternatives /\ includes w s = true.
Proof. apply existsb_exists. Qed.

(** X15. The device test ignores letter case: a user agent containing a
    word that is, in lower case, one of the mobile words is reported
    mobile and not desktop; one containing a tablet word is reported
    tablet and not desktop.  [ipad] is both. *)
Theorem detectDeviceType_word (userAgent w : string) :
  includes w userAgent = true ->
  (In (toLowerCase w) mobilePattern ->
   isMobile (detectDeviceType userAgent) = true /\
   isDesktop (detectDeviceType userAgent) = false) /\
  (In (toLowerCase w) tabletPattern ->
   isTablet (detectDeviceType userAgent) = true /\
   isDesktop (detectDeviceType userAgent) = false).
Proof.
  intros Hw. apply includes_toLowerCase in Hw.
  unfold detectDeviceType. cbn [isMobile isTablet isDesktop].
  split; intros Hin.
  - assert (E : RegExp_test mobilePattern (toLowerCase userAgent) = true)
      by (apply RegExp_test_true; eauto).
    rewrite E. split; reflexivity.
  - assert (E : RegExp_test tabletPattern (toLowerCase userAgent) = true)
      by (apply RegExp_test_true; eauto).
    rewrite E. split; [ reflexivity | apply andb_false_r ].
Qed.

Lemma detectDeviceType_word_witness :
  (In (toLowerCase "iPad") mobilePattern ->
   isMobile (detectDeviceType
               "Mozilla/5.0 (iPad; CPU OS 16_0 like Mac OS X)") = true /\
   isDesktop (detectDeviceType
                "Mozilla/5.0 (iPad; CPU OS 16_0 like Mac OS X)") = false) /\
  (In (toLowerCase "iPad") tabletPattern ->
   isTablet (detectDeviceType
               "Mozilla/5.0 (iPad; CPU OS 16_0 like Mac OS X)") = true /\
   isDesktop (detectDeviceType
                "Mozilla/5.0 (iPad; CPU OS 16_0 like Mac OS X)") = false).
Proof.
  apply (detectDeviceType_word
           "Mozilla/5.0 (iPad; CPU OS 16_0 like Mac OS X)" "iPad").
  vm_compute. reflexivity.
Defined.

(** X16. The three flags: desktop is reported exactly when neither
    mobile nor tablet is, so at least one flag is set; and a device
    reported tablet but not mobile has the word [tablet] in its lower
    case user agent, [ipad] counting as mobile too. *)
Theorem detectDeviceType_flags (userAgent : string) :
  isDesktop (detectDeviceType userAgent)
  = negb (isMobile (detectDeviceType userAgent)
          || isTablet (detectDeviceType userAgent)) /\
  (isTablet (detectDeviceType userAgent) = true ->
   isMobile (detectDeviceType userAgent) = false ->
   includes "tablet" (toLowerCase userAgent) = true).
Proof.
  unfold detectDeviceType. cbn [isMobile isTablet isDesktop].
  split; [ now rewrite negb_orb | ].
  intros Ht Hm. apply RegExp_test_true in Ht.
  destruct Ht as (w & [<- | [<- | []]] & Hw); [ exact Hw | ].
  assert (E : RegExp_test mobilePattern (toLowerCase userAgent) = true).
  { apply RegExp_test_true. exists "ipad"%string. split; [ | exact Hw ].
    unfold mobilePattern. cbn. tauto. }
  congruence.
Qed.

(** Case analysis on the six word tests of [detectBrowser]. *)
Ltac browser_cases userAgent :=
  unfold detectBrowser;
  destruct (includes "Firefox" userAgent);
  destruct (includes "Chrome" userAgent);
  destruct (includes "Safari" userAgent);
  destruct (includes "Edg" userAgent);
  destruct (includes "Opera" userAgent);
  destruct (includes "OPR" userAgent);
  cbn [andb orb negb].

(** X17. [detectBrowser] answers Unknown exactly when the user agent
    contains none of the words Firefox, Chrome, Safari, Edg, Opera and
    OPR. *)
Theorem detectBrowser_Unknown (userAgent : string) :
  detectBrowser userAgent = "Unknown"%string <->
  includes "Firefox" userAgent = false /\
  includes "Chrome" userAgent = false /\
  includes "Safari" userAgent = false /\
  includes "Edg" userAgent = false /\
  includes "Opera" userAgent = false /\
  includes "OPR" userAgent = false.
Proof.
  browser_cases userAgent; split;
    try (intros H; discriminate H);
    try (intros (H1 & H2 & H3 & H4 & H5 & H6); discriminate);
    try (intros _; repeat split; reflexivity);
    try reflexivity.
Qed.

(** X18. Opera is answered only for a user agent without Firefox,
    Chrome, Safari and Edg: a user agent that contains Chrome is
    reported as Firefox, Chrome or Edge, also when it contains OPR. *)
Theorem detectBrowser_Opera (userAgent : string) :
  (detectBrowser userAgent = "Opera"%string <->
   (includes "Opera" userAgent || includes "OPR" userAgent = true) /\
   includes "Firefox" userAgent = false /\
   includes "Chrome" userAgent = false /\
   includes "Safari" userAgent = false /\
   includes "Edg" userAgent = false) /\
  (includes "Chrome" userAgent = true ->
   detectBrowser userAgent = "Firefox"%string \/
   detectBrowser userAgent = "Chrome"%string \/
   detectBrowser userAgent = "Edge"%string).
Proof.
  browser_cases userAgent; split;
    try (split;
         [ intros H; try discriminate H; repeat split; reflexivity
         | intros (H1 & H2 & H3 & H4 & H5); try discriminate; reflexivity ]);
    try (intros H; try discriminate H; tauto).
Qed.

(** The user agent of a Chromium-based Opera names Chrome, Safari and
    OPR: it is reported as Chrome.  That of Edge is reported as Edge. *)
Example detectBrowser_Opera_userAgent :
  detectBrowser
    "Mozilla/5.0 (Windows NT 10.0; Win64; x64) AppleWebKit/537.36 (KHTML, like Gecko) Chrome/120.0.0.0 Safari/537.36 OPR/106.0.0.0"
  = "Chrome"%string.
Proof. vm_compute. reflexivity. Qed.

Example detectBrowser_Edge_userAgent :
  detectBrowser
    "Mozilla/5.0 (Windows NT 10.0; Win64; x64) AppleWebKit/537.36 (KHTML, like Gecko) Chrome/120.0.0.0 Safari/537.36 Edg/120.0.0.0"
  = "Edge"%string.
Proof. vm_compute. reflexivity. Qed.

(** An Android tablet, whose user agent has neither [Mobile] nor
    [Tablet], is reported as mobile only. *)
Example detectDeviceType_android_tablet :
  detectDeviceType
    "Mozilla/5.0 (Linux; Android 13; SM-X906C) AppleWebKit/537.36 (KHTML, like Gecko) Chrome/120.0.0.0 Safari/537.36"
  = mkDeviceType true false false.
Proof. vm_compute. reflexivity. Qed.
